(** * GoMeshController: the wire protocol of the mesh controller driver

    A shallow embedding of package [mesh] (the canonical revision, the one
    whose [WriteData] retries and whose [Read] is declared to return an
    [error]) and the properties of its frame codec, its write path and its
    read/dispatch loop; then [Open] and [Close], the earlier revision of
    the package, whose methods take byte slices, and the demo program of
    the first revision.

    Conventions.
    - A Go [byte] is a [Z] in [0, 2^8) and a [uint16] a [Z] in [0, 2^16);
      the conversions [byte(x)] and [uint16(x)] are written out as
      reductions modulo [2^8] and [2^16].
    - A Go [[]byte] is a [list Z]; indexing and slicing are bounds-checked
      and an access out of range is a run-time panic, which the embedding
      keeps as the [Panic] outcome.
    - [encoding/binary] and [gousb] are libraries, not part of the
      repository: [binary.LittleEndian] is embedded from its Go source, the
      USB endpoints are modelled by what they return to the driver. *)

From Stdlib Require Import ZArith List Lia.
From stdpp Require Import base numbers list strings.
Import ListNotations.

Local Open Scope Z_scope.

(** ** Op codes for the Mesh Controller *)

Module Op.
Definition OpSetup               : Z := 0x00.
Definition OpSetupStatus         : Z := 0x01.
Definition OpAddKey              : Z := 0x02.
Definition OpAddKeyStatus        : Z := 0x03.
Definition OpUnprovisionedBeacon : Z := 0x04.
Definition OpProvision           : Z := 0x05.
Definition OpNodeAdded           : Z := 0x06.
Definition OpConfigureNode       : Z := 0x07.
Definition OpConfigureNodeStatus : Z := 0x08.
Definition OpSendMessage         : Z := 0x09.
Definition OpReset               : Z := 0x10.
Definition OpReboot              : Z := 0x11.
Definition OpNodeReset           : Z := 0x12.
Definition OpState               : Z := 0x13.
Definition OpConfigureElem       : Z := 0x14.
Definition OpConfigureElemStatus : Z := 0x15.
Definition OpSendRecallMessage   : Z := 0x16.
Definition OpSendStoreMessage    : Z := 0x17.
Definition OpSendDeleteMessage   : Z := 0x18.
Definition OpSendBindMessage     : Z := 0x19.
Definition OpEvent               : Z := 0x20.
End Op.
Import Op.

(** ** Machine integers *)

(** The Go conversions [byte(x)] and [uint16(x)] of an unsigned value. *)
Definition byte (x : Z) : Z := x mod 2 ^ 8.
Definition uint16 (x : Z) : Z := x mod 2 ^ 16.

Definition is_byte (x : Z) : Prop := 0 <= x < 2 ^ 8.
Definition is_uint16 (x : Z) : Prop := 0 <= x < 2 ^ 16.

(** ** Outcomes of code that may panic *)

Inductive panic : Type :=
  | IndexOutOfRange (i : nat) (len : nat)
  | SliceBoundsOutOfRange (hi : nat) (cap : nat).

Inductive outcome (A : Type) : Type :=
  | Done (a : A)
  | Panic (p : panic).
Arguments Done {A} a.
Arguments Panic {A} p.

Global Instance outcome_ret : MRet outcome := fun A a => Done a.
Global Instance outcome_bind : MBind outcome := fun A B k m =>
  match m with
  | Done a => k a
  | Panic p => Panic p
  end.

(** [b[i]] *)
Definition index (b : list Z) (i : nat) : outcome Z :=
  match b !! i with
  | Some x => Done x
  | None => Panic (IndexOutOfRange i (length b))
  end.

(** [b[lo:hi]] on a slice whose capacity is its length (every slice of
    this program comes from [make([]byte, n)] or a composite literal). *)
Definition slice (b : list Z) (lo hi : nat) : outcome (list Z) :=
  if (hi <=? length b)%nat && (lo <=? hi)%nat
  then Done (take (hi - lo) (drop lo b))
  else Panic (SliceBoundsOutOfRange hi (length b)).

(** ** encoding/binary, little endian *)

Module LittleEndian.
(** [_ = b[1]; b[0] = byte(v); b[1] = byte(v >> 8)] *)
Definition PutUint16 (b : list Z) (v : Z) : outcome (list Z) :=
  _ ← index b 1;
  let b := <[0%nat := byte v]> b in
  let b := <[1%nat := byte (Z.shiftr v 8)]> b in
  Done b.

(** [_ = b[1]; return uint16(b[0]) | uint16(b[1])<<8] *)
Definition Uint16 (b : list Z) : outcome Z :=
  _ ← index b 1;
  b0 ← index b 0;
  b1 ← index b 1;
  Done (Z.lor (uint16 b0) (uint16 (Z.shiftl (uint16 b1) 8))).
End LittleEndian.

(** Only works with unsigned 16 bit numbers *)
Definition toByteSlice (imput : Z) : outcome (list Z) :=
  let bytes := [0x00; 0x00] in
  LittleEndian.PutUint16 bytes imput.

(** ** The USB endpoints

    What the driver sees of [gousb]: the error values an endpoint returns,
    the outcome of every [epOut.Write] and of every [epIn.Read]. *)

Inductive usb_error : Type :=
  | ErrorIO
  | ErrorNoDevice
  | ErrorOverflow
  | ErrorPipe
  | ErrorTimeout
  | TransferNoDevice
  | TransferStall.

(** A Go [error]: [nil] or [errors.New msg]. *)
Definition error : Type := option string.

(** [time.Millisecond], a [time.Duration] counted in nanoseconds. *)
Definition Millisecond : Z := 1000000.

(** What the process does to the outside, in order. *)
Inductive io_event : Type :=
  | IOWrite (data : list Z)
  | IOSleep (d : Z).

(** The outbound side of the world: [out_script k] is the error that the
    [k]-th call of [epOut.Write] returns ([None] is [nil]), [out_calls]
    counts the calls made so far and [io_log] records them. *)
Record World : Type := MkWorld {
  out_script : nat -> option usb_error;
  out_calls : nat;
  io_log : list io_event
}.

Definition M (A : Type) : Type := World -> outcome (A * World).

Global Instance M_ret : MRet M := fun A a w => Done (a, w).
Global Instance M_bind : MBind M := fun A B k m w =>
  match m w with
  | Done (a, w') => k a w'
  | Panic p => Panic p
  end.

Definition lift {A} (o : outcome A) : M A := fun w =>
  match o with
  | Done a => Done (a, w)
  | Panic p => Panic p
  end.

(** [_, err := controller.epOut.Write(data)] *)
Definition epOut_Write (data : list Z) : M (option usb_error) := fun w =>
  Done (out_script w (out_calls w),
        {| out_script := out_script w;
           out_calls := S (out_calls w);
           io_log := io_log w ++ [IOWrite data] |}).

(** [time.Sleep(d)] *)
Definition Sleep (d : Z) : M unit := fun w =>
  Done (tt,
        {| out_script := out_script w;
           out_calls := out_calls w;
           io_log := io_log w ++ [IOSleep d] |}).

(** ** The command issuer *)

(** WriteData writes data to the Mesh Controller over usb *)
Definition WriteData (data : list Z) : M error :=
  err ← epOut_Write data;
  match err with
  | Some _ =>
      (* If write fails retry after a delay *)
      _ ← Sleep (200 * Millisecond);
      err ← epOut_Write data;
      (* If write fails again error out *)
      match err with
      | Some _ => mret (Some "Write failed"%string)
      | None => mret None
      end
  | None => mret None
  end.

(** ResetNode Removes the node with the givin addr from the mesh network *)
Definition ResetNode (addr : Z) : M error :=
  let parms := [OpNodeReset] in
  a ← lift (toByteSlice addr);
  let parms := parms ++ a in
  WriteData parms.

(** Reboot reboots the Mesh Controller must be called after reset *)
Definition Reboot : M error := WriteData [OpReboot].

(** Reset removes all mesh related items from the Mesh Controller's flash *)
Definition Reset : M error := WriteData [OpReset].

(** SendMessage sends a bt mesh message using the app key at the given
    index to the given addr *)
Definition SendMessage (state addr appIdx : Z) : M error :=
  let parms := [OpSendMessage] in
  let parms := parms ++ [state] in
  a ← lift (toByteSlice addr);
  let parms := parms ++ a in
  i ← lift (toByteSlice appIdx);
  let parms := parms ++ i in
  WriteData parms.

(** SendRecallMessage sends a bt mesh scene recall message using the app
    key at the given index to the given addr *)
Definition SendRecallMessage (sceneNumber addr appIdx : Z) : M error :=
  let parms := [OpSendRecallMessage] in
  n ← lift (toByteSlice sceneNumber);
  let parms := parms ++ n in
  a ← lift (toByteSlice addr);
  let parms := parms ++ a in
  i ← lift (toByteSlice appIdx);
  let parms := parms ++ i in
  WriteData parms.

(** SendStoreMessage sends a bt mesh scene store message using the app key
    at the given index to the given addr *)
Definition SendStoreMessage (sceneNumber addr appIdx : Z) : M error :=
  let parms := [OpSendStoreMessage] in
  n ← lift (toByteSlice sceneNumber);
  let parms := parms ++ n in
  a ← lift (toByteSlice addr);
  let parms := parms ++ a in
  i ← lift (toByteSlice appIdx);
  let parms := parms ++ i in
  WriteData parms.

(** SendDeleteMessage sends a bt mesh scene delete message using the app
    key at the given index to the given addr *)
Definition SendDeleteMessage (sceneNumber addr appIdx : Z) : M error :=
  let parms := [OpSendDeleteMessage] in
  n ← lift (toByteSlice sceneNumber);
  let parms := parms ++ n in
  a ← lift (toByteSlice addr);
  let parms := parms ++ a in
  i ← lift (toByteSlice appIdx);
  let parms := parms ++ i in
  WriteData parms.

(** SendBindMessage sends a bt mesh event bind message using the app key
    at the given index to the given addr *)
Definition SendBindMessage (sceneNumber addr appIdx : Z) : M error :=
  let parms := [OpSendBindMessage] in
  n ← lift (toByteSlice sceneNumber);
  let parms := parms ++ n in
  a ← lift (toByteSlice addr);
  let parms := parms ++ a in
  i ← lift (toByteSlice appIdx);
  let parms := parms ++ i in
  WriteData parms.

(** ConfigureNode binds an app key to the node with the given addr *)
Definition ConfigureNode (addr appIdx : Z) : M error :=
  let parms := [OpConfigureNode] in
  a ← lift (toByteSlice addr);
  let parms := parms ++ a in
  i ← lift (toByteSlice appIdx);
  let parms := parms ++ i in
  WriteData parms.

(** ConfigureElem binds an app key to the elem with the given addr *)
Definition ConfigureElem (groupAddr nodeAddr elemAddr appIdx : Z) : M error :=
  let parms := [OpConfigureElem] in
  g ← lift (toByteSlice groupAddr);
  let parms := parms ++ g in
  n ← lift (toByteSlice nodeAddr);
  let parms := parms ++ n in
  e ← lift (toByteSlice elemAddr);
  let parms := parms ++ e in
  i ← lift (toByteSlice appIdx);
  let parms := parms ++ i in
  WriteData parms.

(** Provision adds a device with the given uuid to the network *)
Definition Provision (uuid : list Z) : M error :=
  let parms := [OpProvision] in
  let parms := parms ++ uuid in
  WriteData parms.

(** AddKey generates an app key at the given index *)
Definition AddKey (appIdx : Z) : M error :=
  let parms := [OpAddKey] in
  i ← lift (toByteSlice appIdx);
  let parms := parms ++ i in
  WriteData parms.

(** Setup creates a new bt mesh network *)
Definition Setup : M error := WriteData [OpSetup].

(** The thirteen command methods as one type, to quantify over them. *)
Inductive command : Type :=
  | CSetup
  | CAddKey (appIdx : Z)
  | CProvision (uuid : list Z)
  | CConfigureNode (addr appIdx : Z)
  | CConfigureElem (groupAddr nodeAddr elemAddr appIdx : Z)
  | CSendMessage (state addr appIdx : Z)
  | CSendRecallMessage (sceneNumber addr appIdx : Z)
  | CSendStoreMessage (sceneNumber addr appIdx : Z)
  | CSendDeleteMessage (sceneNumber addr appIdx : Z)
  | CSendBindMessage (sceneNumber addr appIdx : Z)
  | CResetNode (addr : Z)
  | CReset
  | CReboot.

Definition issue (c : command) : M error :=
  match c with
  | CSetup => Setup
  | CAddKey i => AddKey i
  | CProvision u => Provision u
  | CConfigureNode a i => ConfigureNode a i
  | CConfigureElem g n e i => ConfigureElem g n e i
  | CSendMessage s a i => SendMessage s a i
  | CSendRecallMessage n a i => SendRecallMessage n a i
  | CSendStoreMessage n a i => SendStoreMessage n a i
  | CSendDeleteMessage n a i => SendDeleteMessage n a i
  | CSendBindMessage n a i => SendBindMessage n a i
  | CResetNode a => ResetNode a
  | CReset => Reset
  | CReboot => Reboot
  end.

(** ** The event dispatcher *)

(** The six functions handed to [Read]. A handler runs for its effect on
    whatever the caller keeps, here a state of type [S]. *)
Record Handlers (S : Type) : Type := MkHandlers {
  onSetupStatus : S -> S;
  onAddKeyStatus : Z -> S -> S;
  onUnprovisionedBeacon : list Z -> S -> S;
  onNodeAdded : Z -> S -> S;
  onState : Z -> Z -> S -> S;
  onEvent : Z -> S -> S
}.
Arguments onSetupStatus {S} _ _.
Arguments onAddKeyStatus {S} _ _ _.
Arguments onUnprovisionedBeacon {S} _ _ _.
Arguments onNodeAdded {S} _ _ _.
Arguments onState {S} _ _ _ _.
Arguments onEvent {S} _ _ _.

(** What one call of [epIn.Read(buf)] brings: the bytes the transfer
    delivered and the error it ended with ([None] is [nil]). *)
Record read_result : Type := MkRead {
  rd_data : list Z;
  rd_err : option usb_error
}.

(** [make([]byte, n)] *)
Definition make (n : nat) : list Z := replicate n 0.

(** [controller.epIn.Read(buf)]: the bytes the transfer delivered are
    copied over the front of [buf], whether or not it ended with an error;
    the count and the error are returned. *)
Definition epIn_Read (r : read_result) (buf : list Z)
  : list Z * (nat * option usb_error) :=
  let n := Nat.min (length (rd_data r)) (length buf) in
  (take n (rd_data r) ++ drop n buf, (n, rd_err r)).

(** The buffer one iteration of the loop works on. *)
Definition received (MaxPacketSize : nat) (r : read_result) : list Z :=
  let buf := make MaxPacketSize in
  fst (epIn_Read r buf).

(** Where the loop of [Read] stands: back at its head, waiting for the next
    packet, or left through a [return]. *)
Inductive loop_status (S : Type) : Type :=
  | Listening (s : S)
  | Returned (err : error) (s : S).
Arguments Listening {S} s.
Arguments Returned {S} err s.

Section Dispatcher.
Context {S : Type} (H : Handlers S).

(** The body of the loop after the packet has been read: six [if]
    statements in a row, each one testing [buf[0]] again. [buf] is local
    to [Read], and the only part of it a handler is given is [buf[1:17]],
    so no handler can change [buf[0]]. *)
Definition Read_dispatch (buf : list Z) (s : S) : outcome S :=
  b ← index buf 0;
  s ← (if b =? OpSetupStatus then Done (onSetupStatus H s) else Done s);
  b ← index buf 0;
  s ← (if b =? OpAddKeyStatus then
         sl ← slice buf 1 3;
         appIdx ← LittleEndian.Uint16 sl;
         Done (onAddKeyStatus H appIdx s)
       else Done s);
  b ← index buf 0;
  s ← (if b =? OpUnprovisionedBeacon then
         uuid ← slice buf 1 17;
         Done (onUnprovisionedBeacon H uuid s)
       else Done s);
  b ← index buf 0;
  s ← (if b =? OpNodeAdded then
         sl ← slice buf 1 3;
         addr ← LittleEndian.Uint16 sl;
         Done (onNodeAdded H addr s)
       else Done s);
  b ← index buf 0;
  s ← (if b =? OpState then
         sl ← slice buf 1 3;
         addr ← LittleEndian.Uint16 sl;
         state ← index buf 3;
         Done (onState H addr state s)
       else Done s);
  b ← index buf 0;
  s ← (if b =? OpEvent then
         sl ← slice buf 1 3;
         addr ← LittleEndian.Uint16 sl;
         Done (onEvent H addr s)
       else Done s);
  Done s.

(** One iteration of the loop: a fresh buffer, a read whose count and
    error are dropped, the dispatch. *)
Definition Read_iteration (MaxPacketSize : nat) (r : read_result) (s : S)
  : outcome S :=
  let buf := make MaxPacketSize in
  let '(buf, _) := epIn_Read r buf in
  Read_dispatch buf s.

(** Read calls the provided funcs when a msg from the Mesh Controller is
    recived. The loop has no exit: it is run here on the results of the
    reads that have completed so far, in the order they completed. *)
Fixpoint Read (MaxPacketSize : nat) (reads : list read_result) (s : S)
  : outcome (loop_status S) :=
  match reads with
  | [] => Done (Listening s)
  | r :: reads =>
      s ← Read_iteration MaxPacketSize r s;
      Read MaxPacketSize reads s
  end.
End Dispatcher.

(** ** The protocol as the specification words it *)

(** An inbound frame decoded: one of the six events the dispatcher routes. *)
Inductive event : Type :=
  | EvSetupStatus
  | EvAddKeyStatus (appIdx : Z)
  | EvUnprovisionedBeacon (uuid : list Z)
  | EvNodeAdded (addr : Z)
  | EvState (addr state : Z)
  | EvEvent (addr : Z).

(** The handler an event is mapped to. *)
Definition deliver {S} (H : Handlers S) (e : event) (s : S) : S :=
  match e with
  | EvSetupStatus => onSetupStatus H s
  | EvAddKeyStatus i => onAddKeyStatus H i s
  | EvUnprovisionedBeacon u => onUnprovisionedBeacon H u s
  | EvNodeAdded a => onNodeAdded H a s
  | EvState a st => onState H a st s
  | EvEvent a => onEvent H a s
  end.

(** A dispatch outcome: one event delivered, or nothing at all. *)
Definition outcome_of {S} (H : Handlers S) (o : option event) (s : S) : S :=
  match o with
  | Some e => deliver H e s
  | None => s
  end.

(** Handlers that only write down that they were called, and with what. *)
Definition recorder : Handlers (list event) := {|
  onSetupStatus := fun t => t ++ [EvSetupStatus];
  onAddKeyStatus := fun i t => t ++ [EvAddKeyStatus i];
  onUnprovisionedBeacon := fun u t => t ++ [EvUnprovisionedBeacon u];
  onNodeAdded := fun a t => t ++ [EvNodeAdded a];
  onState := fun a st t => t ++ [EvState a st];
  onEvent := fun a t => t ++ [EvEvent a]
|}.

(** The payload width of every op code, in bytes: the table of wire frame
    layouts. The two reserved status frames carry nothing the driver
    reads. *)
Definition payload_width (op : Z) : nat :=
  if op =? 0x00 then 0        (* Setup *)
  else if op =? 0x01 then 0   (* SetupStatus *)
  else if op =? 0x02 then 2   (* AddKey: appIdx *)
  else if op =? 0x03 then 2   (* AddKeyStatus: appIdx *)
  else if op =? 0x04 then 16  (* UnprovisionedBeacon: uuid *)
  else if op =? 0x05 then 16  (* Provision: uuid *)
  else if op =? 0x06 then 2   (* NodeAdded: addr *)
  else if op =? 0x07 then 4   (* ConfigureNode: addr, appIdx *)
  else if op =? 0x08 then 0   (* ConfigureNodeStatus *)
  else if op =? 0x09 then 5   (* SendMessage: state, addr, appIdx *)
  else if op =? 0x10 then 0   (* Reset *)
  else if op =? 0x11 then 0   (* Reboot *)
  else if op =? 0x12 then 2   (* NodeReset: addr *)
  else if op =? 0x13 then 3   (* State: addr, state *)
  else if op =? 0x14 then 8   (* ConfigureElement: four u16 *)
  else if op =? 0x15 then 0   (* ConfigureElementStatus *)
  else if op =? 0x16 then 6   (* SendRecallMessage *)
  else if op =? 0x17 then 6   (* SendStoreMessage *)
  else if op =? 0x18 then 6   (* SendDeleteMessage *)
  else if op =? 0x19 then 6   (* SendBindMessage *)
  else if op =? 0x20 then 2   (* Event: addr *)
  else 0.

(** The op codes of the table. *)
Definition known_opcode (op : Z) : bool :=
  bool_decide (op ∈ [0x00; 0x01; 0x02; 0x03; 0x04; 0x05; 0x06; 0x07; 0x08;
                     0x09; 0x10; 0x11; 0x12; 0x13; 0x14; 0x15; 0x16; 0x17;
                     0x18; 0x19; 0x20]).

(** The op codes the dispatcher routes to a handler. *)
Definition routed_opcode (op : Z) : bool :=
  bool_decide (op ∈ [OpSetupStatus; OpAddKeyStatus; OpUnprovisionedBeacon;
                     OpNodeAdded; OpState; OpEvent]).

(** A 16-bit field on the wire, low byte first. *)
Definition le16 (v : Z) : list Z := [Z.land v 0xFF; Z.land (Z.shiftr v 8) 0xFF].

(** The 16-bit value held little-endian at offset [i] of a frame. *)
Definition field8 (buf : list Z) (i : nat) : Z := nth i buf 0.
Definition field16 (buf : list Z) (i : nat) : Z :=
  field8 buf i + 2 ^ 8 * field8 buf (i + 1).

(** The frame of a command: the op code, then the fields in the order of
    the table. *)
Definition command_opcode (c : command) : Z :=
  match c with
  | CSetup => 0x00
  | CAddKey _ => 0x02
  | CProvision _ => 0x05
  | CConfigureNode _ _ => 0x07
  | CConfigureElem _ _ _ _ => 0x14
  | CSendMessage _ _ _ => 0x09
  | CSendRecallMessage _ _ _ => 0x16
  | CSendStoreMessage _ _ _ => 0x17
  | CSendDeleteMessage _ _ _ => 0x18
  | CSendBindMessage _ _ _ => 0x19
  | CResetNode _ => 0x12
  | CReset => 0x10
  | CReboot => 0x11
  end.

Definition command_fields (c : command) : list Z :=
  match c with
  | CSetup | CReset | CReboot => []
  | CAddKey i => le16 i
  | CProvision u => u
  | CConfigureNode a i => le16 a ++ le16 i
  | CConfigureElem g n e i => le16 g ++ le16 n ++ le16 e ++ le16 i
  | CSendMessage s a i => [s] ++ le16 a ++ le16 i
  | CSendRecallMessage n a i
  | CSendStoreMessage n a i
  | CSendDeleteMessage n a i
  | CSendBindMessage n a i => le16 n ++ le16 a ++ le16 i
  | CResetNode a => le16 a
  end.

Definition wire_frame (c : command) : list Z :=
  command_opcode c :: command_fields c.

(** Field values a caller can pass: the Go types of the parameters, and
    sixteen bytes for a device uuid. *)
Definition valid_command (c : command) : Prop :=
  match c with
  | CSetup | CReset | CReboot => True
  | CAddKey i => is_uint16 i
  | CProvision u => length u = 16%nat /\ Forall is_byte u
  | CConfigureNode a i => is_uint16 a /\ is_uint16 i
  | CConfigureElem g n e i =>
      is_uint16 g /\ is_uint16 n /\ is_uint16 e /\ is_uint16 i
  | CSendMessage s a i => is_byte s /\ is_uint16 a /\ is_uint16 i
  | CSendRecallMessage n a i
  | CSendStoreMessage n a i
  | CSendDeleteMessage n a i
  | CSendBindMessage n a i => is_uint16 n /\ is_uint16 a /\ is_uint16 i
  | CResetNode a => is_uint16 a
  end.

(** The frame of an inbound event, by the same table. *)
Definition event_opcode (e : event) : Z :=
  match e with
  | EvSetupStatus => 0x01
  | EvAddKeyStatus _ => 0x03
  | EvUnprovisionedBeacon _ => 0x04
  | EvNodeAdded _ => 0x06
  | EvState _ _ => 0x13
  | EvEvent _ => 0x20
  end.

Definition event_fields (e : event) : list Z :=
  match e with
  | EvSetupStatus => []
  | EvAddKeyStatus i => le16 i
  | EvUnprovisionedBeacon u => u
  | EvNodeAdded a => le16 a
  | EvState a st => le16 a ++ [st]
  | EvEvent a => le16 a
  end.

Definition event_frame (e : event) : list Z :=
  event_opcode e :: event_fields e.

Definition valid_event (e : event) : Prop :=
  match e with
  | EvSetupStatus => True
  | EvAddKeyStatus i => is_uint16 i
  | EvUnprovisionedBeacon u => length u = 16%nat /\ Forall is_byte u
  | EvNodeAdded a => is_uint16 a
  | EvState a st => is_uint16 a /\ is_byte st
  | EvEvent a => is_uint16 a
  end.

(** The dispatch table: the event a frame stands for, by its op code, or
    none for any other op code. *)
Definition dispatch_table (buf : list Z) : option event :=
  let op := field8 buf 0 in
  if op =? 0x01 then Some EvSetupStatus
  else if op =? 0x03 then Some (EvAddKeyStatus (field16 buf 1))
  else if op =? 0x04 then Some (EvUnprovisionedBeacon (take 16 (drop 1 buf)))
  else if op =? 0x06 then Some (EvNodeAdded (field16 buf 1))
  else if op =? 0x13 then Some (EvState (field16 buf 1) (field8 buf 3))
  else if op =? 0x20 then Some (EvEvent (field16 buf 1))
  else None.

(** A buffer that holds a whole frame: an op code and at least the payload
    the table gives it. *)
Definition holds_frame (buf : list Z) : Prop :=
  match buf with
  | [] => False
  | op :: _ => (1 + payload_width op <= length buf)%nat
  end.

(** ** Observations on runs *)

(** [o] is a result, not a panic. *)
Definition returns {A} (o : outcome A) : Prop := exists a, o = Done a.

(** The frames a command hands to the endpoint when every write is
    accepted. *)
Definition quiet : World :=
  {| out_script := fun _ => None; out_calls := 0; io_log := [] |}.

Definition written (t : list io_event) : list (list Z) :=
  omap (fun e => match e with IOWrite d => Some d | IOSleep _ => None end) t.

Definition frames_sent (c : command) : list (list Z) :=
  match issue c quiet with
  | Done (_, w) => written (io_log w)
  | Panic _ => []
  end.

(** The world after a call that made [n] write attempts and left the
    events [t]. *)
Definition after (w : World) (n : nat) (t : list io_event) : World :=
  {| out_script := out_script w;
     out_calls := n + out_calls w;
     io_log := io_log w ++ t |}.

(** The events a call added to the log. *)
Definition added (w w' : World) (t : list io_event) : Prop :=
  io_log w' = io_log w ++ t.

(** A packet the loop can take for a frame: bytes, and enough of them for
    the op code they start with. *)
Definition frame_received (n : nat) (r : read_result) : Prop :=
  Forall is_byte (received n r) /\ holds_frame (received n r).

(** A read result with its error taken away. *)
Definition without_error (r : read_result) : read_result :=
  {| rd_data := rd_data r; rd_err := None |}.

(** ** Opening and closing the controller *)

(** A Go pointer to a gousb object: [nil], or the object, named by a
    number. *)
Definition handle : Type := option nat.

(** What gousb answers to the calls [Open] makes: each call gives back its
    object and its error ([None] is [nil]). *)
Record Gousb : Type := MkGousb {
  NewContext : handle;
  OpenDeviceWithVIDPID : handle -> Z -> Z -> handle * option usb_error;
  SetAutoDetach : handle -> bool -> option usb_error;
  Config : handle -> Z -> handle * option usb_error;
  Interface : handle -> Z -> Z -> handle * option usb_error;
  InEndpoint : handle -> Z -> handle * option usb_error;
  OutEndpoint : handle -> Z -> handle * option usb_error
}.

(** The calls into gousb, as they are made. *)
Inductive usb_call : Type :=
  | CallNewContext
  | CallOpenDeviceWithVIDPID (ctx : handle) (vid pid : Z)
  | CallSetAutoDetach (dev : handle) (autodetach : bool)
  | CallConfig (dev : handle) (cfgNum : Z)
  | CallInterface (cfg : handle) (num alt : Z)
  | CallInEndpoint (intf : handle) (epNum : Z)
  | CallOutEndpoint (intf : handle) (epNum : Z)
  | CallInterfaceClose (intf : handle)
  | CallConfigClose (cfg : handle)
  | CallDeviceClose (dev : handle)
  | CallContextClose (ctx : handle).

Definition is_close (c : usb_call) : bool :=
  match c with
  | CallInterfaceClose _ | CallConfigClose _
  | CallDeviceClose _ | CallContextClose _ => true
  | _ => false
  end.

(** Code that calls into gousb: it adds its calls to those made before. *)
Definition U (A : Type) : Type := list usb_call -> A * list usb_call.

Global Instance U_ret : MRet U := fun A a t => (a, t).
Global Instance U_bind : MBind U := fun A B k m t =>
  let '(a, t') := m t in k a t'.

Definition called {A} (c : usb_call) (a : A) : U A := fun t => (a, t ++ [c]).

(** Controller holds all the needed usb vars to talk to the Mesh
    Controller *)
Record Controller : Type := MkController {
  context : handle;
  device : handle;
  config : handle;
  intf : handle;
  epIn : handle;
  epOut : handle
}.

(** [Controller{}] *)
Definition Controller_zero : Controller :=
  {| context := None; device := None; config := None;
     intf := None; epIn := None; epOut := None |}.

(** Open gets the Mesh Controller using usb *)
Definition Open (g : Gousb) : U (Controller * error) :=
  (* Get ctx and defer close func *)
  ctx ← called CallNewContext (NewContext g);
  (* Get device and defer close func *)
  '(dev, err) ← called (CallOpenDeviceWithVIDPID ctx 0x2fe3 0x0100)
                       (OpenDeviceWithVIDPID g ctx 0x2fe3 0x0100);
  match err with
  | Some _ => mret (Controller_zero, Some "Unable to open controller"%string)
  | None =>
  (* Set auto detach from kernel to true *)
  err ← called (CallSetAutoDetach dev true) (SetAutoDetach g dev true);
  match err with
  | Some _ => mret (Controller_zero, Some "Unable to open controller"%string)
  | None =>
  (* Get main config and defer close *)
  '(cfg, err) ← called (CallConfig dev 1) (Config g dev 1);
  match err with
  | Some _ => mret (Controller_zero, Some "Unable to get config"%string)
  | None =>
  (* Get interface 1 and defer close *)
  '(intf, err) ← called (CallInterface cfg 1 0) (Interface g cfg 1 0);
  match err with
  | Some _ => mret (Controller_zero, Some "Unable to open interface"%string)
  | None =>
  (* Get out and in endpoints *)
  '(epIn, err) ← called (CallInEndpoint intf 2) (InEndpoint g intf 2);
  '(epOut, err) ← called (CallOutEndpoint intf 1) (OutEndpoint g intf 1);
  match err with
  | Some _ => mret (Controller_zero, Some "Unable to open endpoints"%string)
  | None =>
  (* Make struct *)
  let controller :=
    {| context := ctx; device := dev; config := cfg;
       intf := intf; epIn := epIn; epOut := epOut |} in
  mret (controller, None)
  end end end end end.


(** The results of the calls [Open] makes when none of them stops it. *)
Definition opened_device (g : Gousb) : handle * option usb_error :=
  OpenDeviceWithVIDPID g (NewContext g) 0x2fe3 0x0100.
Definition opened_autodetach (g : Gousb) : option usb_error :=
  SetAutoDetach g (fst (opened_device g)) true.
Definition opened_config (g : Gousb) : handle * option usb_error :=
  Config g (fst (opened_device g)) 1.
Definition opened_interface (g : Gousb) : handle * option usb_error :=
  Interface g (fst (opened_config g)) 1 0.
Definition opened_in (g : Gousb) : handle * option usb_error :=
  InEndpoint g (fst (opened_interface g)) 2.
Definition opened_out (g : Gousb) : handle * option usb_error :=
  OutEndpoint g (fst (opened_interface g)) 1.

(** ** What the dispatcher reads of a buffer *)

(** The number of leading bytes of the buffer an iteration reads, by the
    byte at offset 0: the highest bound among the accesses of the branch
    that byte selects. *)
Definition bytes_read (op : Z) : nat :=
  if op =? OpAddKeyStatus then 3
  else if op =? OpUnprovisionedBeacon then 17
  else if op =? OpNodeAdded then 3
  else if op =? OpState then 4
  else if op =? OpEvent then 3
  else 1.

(** ** Commands in a row *)

(** A caller issuing commands one after the other. *)
Definition issue_all (cs : list command) : M (list error) := mapM issue cs.

(** A world where every write succeeds. *)
Definition healthy (w : World) : Prop := forall k, out_script w k = None.

(** The controller [Open] builds from those results, and the calls it
    makes on the way. *)
Definition opened_controller (g : Gousb) : Controller :=
  {| context := NewContext g;
     device := fst (opened_device g);
     config := fst (opened_config g);
     intf := fst (opened_interface g);
     epIn := fst (opened_in g);
     epOut := fst (opened_out g) |}.

Definition opened_calls (g : Gousb) : list usb_call :=
  [CallNewContext;
   CallOpenDeviceWithVIDPID (NewContext g) 0x2fe3 0x0100;
   CallSetAutoDetach (fst (opened_device g)) true;
   CallConfig (fst (opened_device g)) 1;
   CallInterface (fst (opened_config g)) 1 0;
   CallInEndpoint (fst (opened_interface g)) 2;
   CallOutEndpoint (fst (opened_interface g)) 1].




(** A host where the configuration cannot be had. *)
Definition no_config : Gousb :=
  {| NewContext := Some 0%nat;
     OpenDeviceWithVIDPID := fun _ _ _ => (Some 1%nat, None);
     SetAutoDetach := fun _ _ => None;
     Config := fun _ _ => (None, Some ErrorIO);
     Interface := fun _ _ _ => (None, Some ErrorIO);
     InEndpoint := fun _ _ => (None, Some ErrorIO);
     OutEndpoint := fun _ _ => (None, Some ErrorIO) |}.

(** ** The earlier revision of the package: arguments as byte slices

    Before the methods took [uint16] arguments they took the bytes
    themselves, wrote once and returned nothing, and [Read] handed the
    handlers the bytes of the buffer. *)

Module Legacy.

(** Handlers of the earlier [Read]. They are given slices of the buffer. *)
Record Handlers (S : Type) : Type := MkHandlers {
  onSetupStatus : S -> outcome S;
  onAddKeyStatus : list Z -> S -> outcome S;
  onUnprovisionedBeacon : list Z -> S -> outcome S;
  onNodeAdded : list Z -> S -> outcome S;
  onState : list Z -> Z -> S -> outcome S
}.
Arguments onSetupStatus {S} _ _.
Arguments onAddKeyStatus {S} _ _ _.
Arguments onUnprovisionedBeacon {S} _ _ _.
Arguments onNodeAdded {S} _ _ _.
Arguments onState {S} _ _ _ _.

(** The body of the loop of the earlier [Read], after the packet has been
    read. *)
Definition Read_dispatch {S} (H : Handlers S) (buf : list Z) (s : S)
  : outcome S :=
  b ← index buf 0;
  s ← (if b =? OpSetupStatus then onSetupStatus H s else Done s);
  b ← index buf 0;
  s ← (if b =? OpAddKeyStatus then
         appIdx ← slice buf 1 3;
         onAddKeyStatus H appIdx s
       else Done s);
  b ← index buf 0;
  s ← (if b =? OpUnprovisionedBeacon then
         uuid ← slice buf 1 17;
         onUnprovisionedBeacon H uuid s
       else Done s);
  b ← index buf 0;
  s ← (if b =? OpNodeAdded then
         addr ← slice buf 1 3;
         onNodeAdded H addr s
       else Done s);
  b ← index buf 0;
  s ← (if b =? OpState then
         addr ← slice buf 1 3;
         state ← index buf 3;
         onState H addr state s
       else Done s);
  Done s.

(** WriteData writes data to the Mesh Controller over usb *)
Definition WriteData (data : list Z) : M unit :=
  _ ← epOut_Write data;
  mret tt.

(** ResetNode Removes the node with the givin addr from the mesh network *)
Definition ResetNode (addr : list Z) : M unit :=
  let parms := [OpNodeReset] in
  let parms := parms ++ addr in
  WriteData parms.

(** Reboot reboots the Mesh Controller must be called after reset *)
Definition Reboot : M unit := WriteData [OpReboot].

(** Reset removes all mesh related items from the Mesh Controller's flash *)
Definition Reset : M unit := WriteData [OpReset].

(** SendMessage sends a bt mesh message using the app key at the given
    index to the given addr *)
Definition SendMessage (state : Z) (addr appIdx : list Z) : M unit :=
  let parms := [OpSendMessage] in
  let parms := parms ++ [state] in
  let parms := parms ++ addr in
  let parms := parms ++ appIdx in
  WriteData parms.

(** SendRecallMessage sends a bt mesh scene recall message using the app
    key at the given index to the given addr *)
Definition SendRecallMessage (sceneNumber addr appIdx : list Z) : M unit :=
  let parms := [OpSendRecallMessage] in
  let parms := parms ++ sceneNumber in
  let parms := parms ++ addr in
  let parms := parms ++ appIdx in
  WriteData parms.

(** SendStoreMessage sends a bt mesh scene store message using the app key
    at the given index to the given addr *)
Definition SendStoreMessage (sceneNumber addr appIdx : list Z) : M unit :=
  let parms := [OpSendStoreMessage] in
  let parms := parms ++ sceneNumber in
  let parms := parms ++ addr in
  let parms := parms ++ appIdx in
  WriteData parms.

(** SendDeleteMessage sends a bt mesh scene delete message using the app
    key at the given index to the given addr *)
Definition SendDeleteMessage (sceneNumber addr appIdx : list Z) : M unit :=
  let parms := [OpSendDeleteMessage] in
  let parms := parms ++ sceneNumber in
  let parms := parms ++ addr in
  let parms := parms ++ appIdx in
  WriteData parms.

(** ConfigureNode binds an app key to the node with the given addr *)
Definition ConfigureNode (addr appIdx : list Z) : M unit :=
  let parms := [OpConfigureNode] in
  let parms := parms ++ addr in
  let parms := parms ++ appIdx in
  WriteData parms.

(** ConfigureElem binds an app key to the elem with the given addr *)
Definition ConfigureElem (groupAddr nodeAddr elemAddr appIdx : list Z)
  : M unit :=
  let parms := [OpConfigureElem] in
  let parms := parms ++ groupAddr in
  let parms := parms ++ nodeAddr in
  let parms := parms ++ elemAddr in
  let parms := parms ++ appIdx in
  WriteData parms.

(** Provision adds a device with the given uuid to the network *)
Definition Provision (uuid : list Z) : M unit :=
  let parms := [OpProvision] in
  let parms := parms ++ uuid in
  WriteData parms.

(** AddKey generates an app key at the given index *)
Definition AddKey (appIdx : list Z) : M unit :=
  let parms := [OpAddKey] in
  let parms := parms ++ appIdx in
  WriteData parms.

(** Setup creates a new bt mesh network *)
Definition Setup : M unit := WriteData [OpSetup].

(** The earlier method that became a method of the later revision, called
    with the bytes of the later arguments. The later revision added
    [SendBindMessage], which has no earlier form. *)
Definition issue (c : command) : option (M unit) :=
  match c with
  | CSetup => Some Setup
  | CAddKey i => Some (AddKey (le16 i))
  | CProvision u => Some (Provision u)
  | CConfigureNode a i => Some (ConfigureNode (le16 a) (le16 i))
  | CConfigureElem g n e i =>
      Some (ConfigureElem (le16 g) (le16 n) (le16 e) (le16 i))
  | CSendMessage s a i => Some (SendMessage s (le16 a) (le16 i))
  | CSendRecallMessage n a i =>
      Some (SendRecallMessage (le16 n) (le16 a) (le16 i))
  | CSendStoreMessage n a i =>
      Some (SendStoreMessage (le16 n) (le16 a) (le16 i))
  | CSendDeleteMessage n a i =>
      Some (SendDeleteMessage (le16 n) (le16 a) (le16 i))
  | CSendBindMessage _ _ _ => None
  | CResetNode a => Some (ResetNode (le16 a))
  | CReset => Some Reset
  | CReboot => Some Reboot
  end.

End Legacy.

(** Handlers of the earlier [Read] that do what handlers of the later one
    do: they decode the 16-bit fields themselves. *)
Definition decoding {S} (H : Handlers S) : Legacy.Handlers S :=
  {| Legacy.onSetupStatus := fun s => Done (onSetupStatus H s);
     Legacy.onAddKeyStatus := fun b s =>
       appIdx ← LittleEndian.Uint16 b; Done (onAddKeyStatus H appIdx s);
     Legacy.onUnprovisionedBeacon := fun u s =>
       Done (onUnprovisionedBeacon H u s);
     Legacy.onNodeAdded := fun b s =>
       addr ← LittleEndian.Uint16 b; Done (onNodeAdded H addr s);
     Legacy.onState := fun b st s =>
       addr ← LittleEndian.Uint16 b; Done (onState H addr st s) |}.

(** ** The demo program of the first revision (package main) *)

Module Demo.

(** What the program prints: the call of [fmt] and its arguments. *)
Inductive print : Type :=
  | Println (s : string)
  | Printf (format : string) (arg : list Z).

(** The process: the endpoint it writes to and its standard output. *)
Record Proc : Type := MkProc {
  usb : World;
  stdout : list print
}.

Definition on_usb (m : M unit) (p : Proc) : outcome Proc :=
  match m (usb p) with
  | Done (_, w) => Done {| usb := w; stdout := stdout p |}
  | Panic e => Panic e
  end.

Definition fmt (x : print) (p : Proc) : outcome Proc :=
  Done {| usb := usb p; stdout := stdout p ++ [x] |}.

(** WriteData writes data to the Mesh Controller over usb *)
Definition WriteData (data : list Z) : M unit :=
  _ ← epOut_Write data;
  mret tt.

(** ConfigureNode binds an app key to the node with the given addr *)
Definition ConfigureNode (addr appIdx : list Z) : M unit :=
  let parms := [OpConfigureNode] in
  let parms := parms ++ addr in
  let parms := parms ++ appIdx in
  WriteData parms.

(** AddKey generates an app key at the given index *)
Definition AddKey (appIdx : list Z) : M unit :=
  let parms := [OpAddKey] in
  let parms := parms ++ appIdx in
  WriteData parms.

(** The four functions [main] hands to [Read]. *)
Definition onSetupStatus (p : Proc) : outcome Proc :=
  p ← fmt (Println "setupStatus") p;
  on_usb (AddKey [0x00; 0x00]) p.

Definition onAddKeyStatus (appIdx : list Z) (p : Proc) : outcome Proc :=
  fmt (Printf "appKeyStatus %x \n" appIdx) p.

Definition onUnprovisionedBeacon (uuid : list Z) (p : Proc) : outcome Proc :=
  fmt (Printf "unprovBeacon %x \n" uuid) p.

Definition onNodeAdded (addr : list Z) (p : Proc) : outcome Proc :=
  p ← fmt (Printf "nodeAdded %x \n" addr) p;
  on_usb (ConfigureNode addr [0x00; 0x00]) p.

(** The body of the loop of [Read] in this revision, called as [main]
    calls it. *)
Definition Read_dispatch (buf : list Z) (p : Proc) : outcome Proc :=
  b ← index buf 0;
  p ← (if b =? OpSetupStatus then onSetupStatus p else Done p);
  b ← index buf 0;
  p ← (if b =? OpAddKeyStatus then
         appIdx ← slice buf 1 3;
         onAddKeyStatus appIdx p
       else Done p);
  b ← index buf 0;
  p ← (if b =? OpUnprovisionedBeacon then
         uuid ← slice buf 1 17;
         onUnprovisionedBeacon uuid p
       else Done p);
  b ← index buf 0;
  p ← (if b =? OpNodeAdded then
         addr ← slice buf 1 3;
         onNodeAdded addr p
       else Done p);
  Done p.

(** The frames the program sends in answer to a packet. *)
Definition answer (buf : list Z) : list (list Z) :=
  match buf with
  | op :: a0 :: a1 :: _ =>
      if op =? 0x01 then [[0x02; 0x00; 0x00]]
      else if op =? 0x06 then [[0x07; a0; a1; 0x00; 0x00]]
      else []
  | _ => []
  end.

End Demo.

(** ** Proof steps used more than once *)

Ltac case_op op c := destruct (Z.eqb_spec op c) as [-> | ?].

Ltac unfold_ops :=
  unfold OpSetupStatus, OpAddKeyStatus, OpUnprovisionedBeacon, OpNodeAdded,
    OpState, OpEvent in *.

Tactic Notation "split_front" ident(rest) integer(k) :=
  do k (destruct rest as [| ? rest]; [cbn in *; lia |]).

Ltac enter_dispatch :=
  cbn [index lookup list_lookup mbind outcome_bind];
  unfold_ops;
  cbn [Z.eqb Pos.eqb mbind outcome_bind].

Ltac dispatch_by_opcode op :=
  unfold bytes_read, Read_dispatch;
  cbn [index lookup list_lookup mbind outcome_bind];
  unfold_ops;
  case_op op 1; [| case_op op 3; [| case_op op 4; [| case_op op 6;
    [| case_op op 19; [| case_op op 32]]]]];
  cbn [Z.eqb Pos.eqb mbind outcome_bind].

Ltac legacy_by_opcode op :=
  unfold Legacy.Read_dispatch, Read_dispatch;
  cbn [index lookup list_lookup mbind outcome_bind];
  unfold_ops;
  case_op op 1; [| case_op op 3; [| case_op op 4; [| case_op op 6;
    [| case_op op 19; [| case_op op 32]]]]];
  cbn [Z.eqb Pos.eqb mbind outcome_bind].

(** ** Properties of the 16-bit field codec *)

Lemma toByteSlice_eq (v : Z) :
  toByteSlice v = Done [byte v; byte (Z.shiftr v 8)].
Proof. reflexivity. Qed.

Lemma byte_land (x : Z) : byte x = Z.land x 0xFF.
Proof.
  unfold byte. change 0xFF with (Z.ones 8).
  rewrite Z.land_ones by lia. reflexivity.
Qed.

Lemma byte_is_byte (x : Z) : is_byte (byte x).
Proof. unfold is_byte, byte. apply Z.mod_pos_bound. lia. Qed.

Lemma byte_id (x : Z) : is_byte x -> byte x = x.
Proof. unfold is_byte, byte. intros H. apply Z.mod_small. exact H. Qed.

(** C4: for every [v] in [[0, 65535]], the encoding of the 16-bit field [v]
    is exactly the two bytes [[v & 0xFF, (v >> 8) & 0xFF]], low byte
    first. *)
Theorem toByteSlice_little_endian (v : Z) :
  0 <= v <= 65535 ->
  toByteSlice v = Done [Z.land v 0xFF; Z.land (Z.shiftr v 8) 0xFF].
Proof.
  intros _. rewrite toByteSlice_eq, !byte_land. reflexivity.
Qed.

Lemma toByteSlice_little_endian_witness :
  0 <= 0x1234 <= 65535 /\ toByteSlice 0x1234 = Done [0x34; 0x12].
Proof.
  split; [lia | apply (toByteSlice_little_endian 0x1234); lia].
Defined.

(** ** The dispatcher, frame by frame *)

Lemma Uint16_pair (lo hi : Z) :
  LittleEndian.Uint16 [lo; hi]
  = Done (Z.lor (uint16 lo) (uint16 (Z.shiftl (uint16 hi) 8))).
Proof. reflexivity. Qed.

Lemma lor_bytes (lo hi : Z) :
  is_byte lo -> is_byte hi ->
  Z.lor (uint16 lo) (uint16 (Z.shiftl (uint16 hi) 8)) = lo + 2 ^ 8 * hi.
Proof.
  unfold is_byte, uint16. intros Hlo Hhi.
  rewrite (Z.mod_small lo), (Z.mod_small hi) by lia.
  rewrite Z.shiftl_mul_pow2 by lia.
  rewrite (Z.mod_small (hi * 2 ^ 8)) by lia.
  rewrite <- Z.lxor_lor, <- Z.add_nocarry_lxor; try lia.
  all: apply Z.bits_inj'; intros n Hn; rewrite Z.land_spec, Z.bits_0.
  all: destruct (Z.lt_ge_cases n 8) as [Hlt | Hge].
  all: try (rewrite (Z.mul_pow2_bits_low hi 8 n) by lia; apply andb_false_r).
  all: rewrite <- (Z.mod_small lo (2 ^ 8)) by lia.
  all: rewrite Z.mod_pow2_bits_high by lia; reflexivity.
Qed.

Lemma Uint16_bytes (lo hi : Z) :
  is_byte lo -> is_byte hi ->
  LittleEndian.Uint16 [lo; hi] = Done (lo + 2 ^ 8 * hi).
Proof. intros Hlo Hhi. rewrite Uint16_pair, lor_bytes; auto. Qed.

Lemma le16_bytes (v : Z) : le16 v = [byte v; byte (Z.shiftr v 8)].
Proof. unfold le16. rewrite !byte_land. reflexivity. Qed.

Lemma toByteSlice_le16 (v : Z) : toByteSlice v = Done (le16 v).
Proof. rewrite le16_bytes. apply toByteSlice_eq. Qed.

Lemma uint16_split (v : Z) :
  is_uint16 v -> byte v + 2 ^ 8 * byte (Z.shiftr v 8) = v.
Proof.
  unfold is_uint16, byte. intros Hv.
  rewrite Z.shiftr_div_pow2 by lia.
  rewrite (Z.mod_small (v / 2 ^ 8)).
  - symmetry. rewrite Z.add_comm. apply Z.div_mod. lia.
  - split; [apply Z.div_pos; lia | apply Z.div_lt_upper_bound; lia].
Qed.

Lemma Uint16_le16 (v : Z) :
  is_uint16 v -> LittleEndian.Uint16 (le16 v) = Done v.
Proof.
  intros Hv. rewrite le16_bytes, Uint16_bytes by apply byte_is_byte.
  f_equal. apply uint16_split, Hv.
Qed.

(** Reading back what [toByteSlice] wrote. *)
Lemma Uint16_toByteSlice (v : Z) :
  is_uint16 v -> (b ← toByteSlice v; LittleEndian.Uint16 b) = Done v.
Proof. intros Hv. rewrite toByteSlice_le16. apply Uint16_le16, Hv. Qed.

(** ** The command issuer *)

Lemma issue_wire_frame (c : command) (w : World) :
  issue c w = WriteData (wire_frame c) w.
Proof.
  destruct c; unfold wire_frame, command_fields, command_opcode;
    rewrite ?le16_bytes; reflexivity.
Qed.

Lemma length_le16 (v : Z) : length (le16 v) = 2%nat.
Proof. reflexivity. Qed.

(** C3: every command method hands to the write path the frame made of its
    op code and then its fields in the order of the table, whose length is
    one more than the widths of the fields; [SendMessage(0x00, 0x000A,
    0x0000)] builds [09 00 0A 00 00 00] and [Provision] of the sixteen bytes
    [19 8a 1d 0d 7e d1 00 ... 00] builds [05] and then those bytes,
    seventeen in all. *)
Theorem command_frame_layout (c : command) (w : World) :
  valid_command c ->
  issue c w = WriteData (wire_frame c) w
  /\ length (wire_frame c) = (1 + payload_width (command_opcode c))%nat
  /\ SendMessage 0x00 0x000A 0x0000 w
     = WriteData [0x09; 0x00; 0x0A; 0x00; 0x00; 0x00] w
  /\ Provision [0x19; 0x8a; 0x1d; 0x0d; 0x7e; 0xd1; 0; 0; 0; 0; 0; 0; 0; 0; 0; 0] w
     = WriteData [0x05; 0x19; 0x8a; 0x1d; 0x0d; 0x7e; 0xd1;
                  0; 0; 0; 0; 0; 0; 0; 0; 0; 0] w
  /\ length [0x05; 0x19; 0x8a; 0x1d; 0x0d; 0x7e; 0xd1;
             0; 0; 0; 0; 0; 0; 0; 0; 0; 0] = 17%nat.
Proof.
  intros Hc. split; [apply issue_wire_frame |].
  split; [| repeat split].
  unfold wire_frame.
  destruct c; cbn [command_opcode command_fields length];
    rewrite ?length_app, ?length_le16; try reflexivity.
  destruct Hc as [Hlen _]. rewrite Hlen. reflexivity.
Qed.

Lemma command_frame_layout_witness :
  valid_command (CConfigureElem 0xC000 0x0001 0x0002 0x0000)
  /\ issue (CConfigureElem 0xC000 0x0001 0x0002 0x0000) quiet
     = WriteData [0x14; 0x00; 0xC0; 0x01; 0x00; 0x02; 0x00; 0x00; 0x00] quiet.
Proof.
  assert (Hv : valid_command (CConfigureElem 0xC000 0x0001 0x0002 0x0000))
    by (cbv [valid_command is_uint16]; lia).
  split; [exact Hv |].
  exact (proj1 (command_frame_layout
                  (CConfigureElem 0xC000 0x0001 0x0002 0x0000) quiet Hv)).
Defined.

Lemma WriteData_run (data : list Z) (w : World) :
  WriteData data w
  = Done
      match out_script w (out_calls w),
            out_script w (Datatypes.S (out_calls w)) with
      | None, _ => (None, after w 1 [IOWrite data])
      | Some _, None =>
          (None,
           after w 2 [IOWrite data; IOSleep (200 * Millisecond); IOWrite data])
      | Some _, Some _ =>
          (Some "Write failed"%string,
           after w 2 [IOWrite data; IOSleep (200 * Millisecond); IOWrite data])
      end.
Proof.
  unfold WriteData, epOut_Write, Sleep, mbind, M_bind, mret, M_ret, after.
  simpl. destruct (out_script w (out_calls w)) as [e1 |]; simpl.
  - destruct (out_script w (Datatypes.S (out_calls w))) as [e2 |]; simpl;
      rewrite <- !app_assoc; reflexivity.
  - reflexivity.
Qed.

(** C10: [Provision] does not look at the length of its argument: for every
    byte slice, the empty one and those shorter or longer than sixteen
    bytes included, it builds [05] followed by the slice as it is, one byte
    longer than the slice, and that frame is what it writes to the
    endpoint. *)
Theorem Provision_any_length (uuid : list Z) (w : World) :
  Provision uuid w = WriteData (0x05 :: uuid) w
  /\ length (0x05 :: uuid) = (1 + length uuid)%nat
  /\ exists err w' rest,
       Provision uuid w = Done (err, w')
       /\ io_log w' = io_log w ++ IOWrite (0x05 :: uuid) :: rest.
Proof.
  split; [reflexivity | split; [reflexivity |]].
  change (Provision uuid w) with (WriteData (0x05 :: uuid) w).
  rewrite WriteData_run.
  destruct (out_script w (out_calls w)) as [e1 |];
    [destruct (out_script w (Datatypes.S (out_calls w))) as [e2 |] |];
    eexists _, _, _; (split; [reflexivity |]); reflexivity.
Qed.

(** C2: the write path on any frame. When the first write succeeds the call
    succeeds after that one attempt. When it fails the call sleeps 200 ms
    and writes the frame once more: it succeeds if that write does and
    fails with "Write failed" if not, after two attempts and one sleep in
    both cases. *)
Theorem WriteData_retry_once (data : list Z) (w : World) :
  exists err w',
    WriteData data w = Done (err, w')
    /\ out_script w' = out_script w
    /\ match out_script w (out_calls w),
             out_script w (Datatypes.S (out_calls w)) with
       | None, _ =>
           err = None
           /\ added w w' [IOWrite data]
           /\ out_calls w' = (1 + out_calls w)%nat
       | Some _, None =>
           err = None
           /\ added w w'
                [IOWrite data; IOSleep (200 * Millisecond); IOWrite data]
           /\ out_calls w' = (2 + out_calls w)%nat
       | Some _, Some _ =>
           err = Some "Write failed"%string
           /\ added w w'
                [IOWrite data; IOSleep (200 * Millisecond); IOWrite data]
           /\ out_calls w' = (2 + out_calls w)%nat
       end.
Proof.
  rewrite WriteData_run. unfold added.
  destruct (out_script w (out_calls w)) as [e1 |];
    [destruct (out_script w (Datatypes.S (out_calls w))) as [e2 |] |];
    eexists _, _; (split; [reflexivity |]); repeat split.
Qed.

(** ** The dispatcher, one iteration *)

Lemma Forall_is_byte_cons (x : Z) (l : list Z) :
  Forall is_byte (x :: l) -> is_byte x /\ Forall is_byte l.
Proof. intros HF. inversion HF; auto. Qed.

Lemma Read_iteration_eq {S} (H : Handlers S) (n : nat) (r : read_result) (s : S) :
  Read_iteration H n r s = Read_dispatch H (received n r) s.
Proof. reflexivity. Qed.

Lemma length_received (n : nat) (r : read_result) : length (received n r) = n.
Proof.
  unfold received, epIn_Read, make. cbn [fst].
  rewrite length_app, length_take, length_drop, length_replicate. lia.
Qed.

(** The dispatch of a buffer that holds a whole frame is the one the
    dispatch table prescribes. *)
Lemma Read_dispatch_table {S} (H : Handlers S) (buf : list Z) (s : S) :
  Forall is_byte buf -> holds_frame buf ->
  Read_dispatch H buf s = Done (outcome_of H (dispatch_table buf) s).
Proof.
  intros Hb Hf. destruct buf as [| op rest]; [destruct Hf |].
  unfold holds_frame in Hf.
  unfold Read_dispatch, dispatch_table, field16, field8.
  cbn [index lookup list_lookup nth mbind outcome_bind].
  unfold_ops.
  case_op op 1; [reflexivity |].
  case_op op 3.
  { split_front rest 2.
    apply Forall_is_byte_cons in Hb as [_ Hb].
    apply Forall_is_byte_cons in Hb as [Hb1 Hb].
    apply Forall_is_byte_cons in Hb as [Hb2 Hb].
    cbn -[LittleEndian.Uint16 Z.pow Z.mul Z.add].
    rewrite Uint16_bytes by assumption. reflexivity. }
  case_op op 4.
  { split_front rest 16. reflexivity. }
  case_op op 6.
  { split_front rest 2.
    apply Forall_is_byte_cons in Hb as [_ Hb].
    apply Forall_is_byte_cons in Hb as [Hb1 Hb].
    apply Forall_is_byte_cons in Hb as [Hb2 Hb].
    cbn -[LittleEndian.Uint16 Z.pow Z.mul Z.add].
    rewrite Uint16_bytes by assumption. reflexivity. }
  case_op op 19.
  { split_front rest 3.
    apply Forall_is_byte_cons in Hb as [_ Hb].
    apply Forall_is_byte_cons in Hb as [Hb1 Hb].
    apply Forall_is_byte_cons in Hb as [Hb2 Hb].
    cbn -[LittleEndian.Uint16 Z.pow Z.mul Z.add].
    rewrite Uint16_bytes by assumption. reflexivity. }
  case_op op 32.
  { split_front rest 2.
    apply Forall_is_byte_cons in Hb as [_ Hb].
    apply Forall_is_byte_cons in Hb as [Hb1 Hb].
    apply Forall_is_byte_cons in Hb as [Hb2 Hb].
    cbn -[LittleEndian.Uint16 Z.pow Z.mul Z.add].
    rewrite Uint16_bytes by assumption. reflexivity. }
  reflexivity.
Qed.

(** A buffer whose first byte is none of the six routed op codes goes
    through the six tests untouched. *)
Lemma Read_dispatch_unrouted {S} (H : Handlers S) (op : Z) (rest : list Z) (s : S) :
  routed_opcode op = false -> Read_dispatch H (op :: rest) s = Done s.
Proof.
  unfold routed_opcode. rewrite bool_decide_eq_false. intros Hop.
  unfold Read_dispatch.
  cbn [index lookup list_lookup mbind outcome_bind].
  unfold_ops.
  repeat match goal with
         | |- context [op =? ?c] =>
             destruct (Z.eqb_spec op c) as [-> | ?];
             [exfalso; apply Hop, list_elem_of_In; simpl; tauto |]
         end.
  reflexivity.
Qed.

Lemma known_opcode_routed (op : Z) :
  known_opcode op = false -> routed_opcode op = false.
Proof.
  unfold known_opcode, routed_opcode. rewrite !bool_decide_eq_false.
  unfold_ops. rewrite !list_elem_of_In. simpl. tauto.
Qed.

(** C5: on a buffer whose byte 0 is [0x20] and whose bytes 1 and 2 are
    [0x0A] and [0x00], one iteration of the dispatcher calls [onEvent] with
    address 10 and calls no other handler. *)
Theorem Read_event_frame {S} (H : Handlers S) (n : nat) (r : read_result) (s : S) :
  received n r !! 0%nat = Some 0x20 ->
  received n r !! 1%nat = Some 0x0A ->
  received n r !! 2%nat = Some 0x00 ->
  Read_iteration H n r s = Done (onEvent H 10 s)
  /\ Read_iteration recorder n r [] = Done [EvEvent 10].
Proof.
  intros H0 H1 H2. rewrite !Read_iteration_eq.
  destruct (received n r) as [| b0 [| b1 [| b2 rest]]]; try discriminate.
  cbn in H0, H1, H2. injection H0 as ->. injection H1 as ->. injection H2 as ->.
  split; reflexivity.
Qed.

Lemma Read_event_frame_witness :
  Read_iteration recorder 64 (MkRead [0x20; 0x0A; 0x00] None) [EvSetupStatus]
  = Done [EvSetupStatus; EvEvent 10].
Proof.
  exact (proj1 (Read_event_frame recorder 64 (MkRead [0x20; 0x0A; 0x00] None)
                  [EvSetupStatus] eq_refl eq_refl eq_refl)).
Defined.

(** C6: on a buffer whose byte 0 is none of the op codes the dispatcher
    routes (so, in particular, on one whose byte 0 is no op code of the
    table at all), one iteration calls no handler and ends without a
    fault, and the loop goes on with the next packet. *)
Theorem Read_unknown_opcode {S} (H : Handlers S) (n : nat) (r : read_result)
    (op : Z) (reads : list read_result) (s : S) :
  received n r !! 0%nat = Some op ->
  routed_opcode op = false ->
  Read_iteration H n r s = Done s
  /\ Read_iteration recorder n r [] = Done []
  /\ Read H n (r :: reads) s = Read H n reads s.
Proof.
  intros H0 Hop.
  assert (Hit : forall T (G : Handlers T) t, Read_iteration G n r t = Done t).
  { intros T G t. rewrite Read_iteration_eq.
    destruct (received n r) as [| b0 rest]; [discriminate |].
    injection H0 as ->. apply Read_dispatch_unrouted, Hop. }
  split; [apply Hit | split; [apply Hit |]].
  cbn [Read]. rewrite Hit. reflexivity.
Qed.

Lemma Read_unknown_opcode_witness :
  known_opcode 0xFF = false
  /\ Read recorder 64 [MkRead [0xFF; 0x0A; 0x00] None;
                       MkRead [0x20; 0x0A; 0x00] None] []
     = Read recorder 64 [MkRead [0x20; 0x0A; 0x00] None] [].
Proof.
  split; [reflexivity |].
  exact (proj2 (proj2 (Read_unknown_opcode recorder 64
                         (MkRead [0xFF; 0x0A; 0x00] None) 0xFF
                         [MkRead [0x20; 0x0A; 0x00] None] []
                         eq_refl eq_refl))).
Defined.

Lemma Read_dispatch_total {S} (H : Handlers S) (buf : list Z) (s : S) :
  (17 <= length buf)%nat -> returns (Read_dispatch H buf s).
Proof.
  intros Hlen. split_front buf 17.
  rename z into op. clear Hlen.
  unfold returns, Read_dispatch.
  cbn [index lookup list_lookup mbind outcome_bind].
  unfold_ops.
  case_op op 1; [eexists; reflexivity |].
  case_op op 3; [eexists; reflexivity |].
  case_op op 4; [eexists; reflexivity |].
  case_op op 6; [eexists; reflexivity |].
  case_op op 19; [eexists; reflexivity |].
  case_op op 32; [eexists; reflexivity |].
  eexists; reflexivity.
Qed.

(** C9: when the receive buffer (as long as the endpoint's greatest packet
    size) has at least seventeen bytes, each access of an iteration,
    [buf[0]], [buf[1:3]] and the 16-bit read of it, [buf[1:17]] and
    [buf[3]], is within bounds whatever the buffer holds, so an iteration
    always runs to its end and the loop never faults. *)
Theorem Read_within_bounds {S} (H : Handlers S) (n : nat)
    (r : read_result) (reads : list read_result) (s : S) :
  (17 <= n)%nat ->
  returns (index (received n r) 0)
  /\ returns (sl ← slice (received n r) 1 3; LittleEndian.Uint16 sl)
  /\ returns (slice (received n r) 1 17)
  /\ returns (index (received n r) 3)
  /\ returns (Read_iteration H n r s)
  /\ exists s', Read H n reads s = Done (Listening s').
Proof.
  intros Hn.
  assert (Hit : forall r' s', returns (Read_iteration H n r' s')).
  { intros r' s'. rewrite Read_iteration_eq.
    apply Read_dispatch_total. rewrite length_received. exact Hn. }
  assert (Hlen : (17 <= length (received n r))%nat)
    by (rewrite length_received; exact Hn).
  repeat split.
  - generalize dependent (received n r). intros buf Hb.
    split_front buf 17. eexists; reflexivity.
  - generalize dependent (received n r). intros buf Hb.
    split_front buf 17. eexists; reflexivity.
  - generalize dependent (received n r). intros buf Hb.
    split_front buf 17. eexists; reflexivity.
  - generalize dependent (received n r). intros buf Hb.
    split_front buf 17. eexists; reflexivity.
  - apply Hit.
  - clear r Hlen. revert s. induction reads as [| r reads IH]; intros s.
    + eexists; reflexivity.
    + cbn [Read]. destruct (Hit r s) as [s1 ->]. apply IH.
Qed.

Lemma Read_within_bounds_witness :
  returns (Read_iteration recorder 17
             (MkRead [0x04; 1; 2; 3; 4; 5; 6; 7; 8; 9; 10; 11; 12; 13; 14;
                      15; 16; 17; 18] None) []).
Proof.
  refine (proj1 (proj2 (proj2 (proj2 (proj2
            (Read_within_bounds recorder 17
               (MkRead [0x04; 1; 2; 3; 4; 5; 6; 7; 8; 9; 10; 11; 12; 13; 14;
                        15; 16; 17; 18] None) [] [] _)))))).
  lia.
Defined.

(** Below seventeen bytes the bound fails: a sixteen-byte buffer that
    starts with [0x04] makes [buf[1:17]] panic. *)
Lemma Read_short_buffer_panics :
  Read_iteration recorder 16 (MkRead [0x04] None) []
  = Panic (SliceBoundsOutOfRange 17 16).
Proof. reflexivity. Qed.

(** ** The dispatcher, the whole loop *)

Lemma fold_recorder (f : read_result -> option event)
    (reads : list read_result) (t : list event) :
  fold_left (fun t r => outcome_of recorder (f r) t) reads t
  = t ++ omap f reads.
Proof.
  revert t. induction reads as [| r reads IH]; intros t; cbn.
  - symmetry. apply app_nil_r.
  - rewrite IH. destruct (f r) as [e |]; cbn.
    + destruct e; cbn; rewrite <- app_assoc; reflexivity.
    + reflexivity.
Qed.

(** C7: every frame received has exactly one of the outcomes of the
    dispatch table: the one handler its op code is mapped to is called
    with the fields of the frame, or, for any other op code, none is;
    never two handlers for one frame. The frames are dispatched in the
    order they arrived. *)
Theorem Read_one_outcome_in_order {S} (H : Handlers S) (n : nat)
    (reads : list read_result) (s : S) :
  Forall (frame_received n) reads ->
  Read H n reads s
  = Done (Listening
            (fold_left
               (fun s r => outcome_of H (dispatch_table (received n r)) s)
               reads s))
  /\ Read recorder n reads []
     = Done (Listening (omap (fun r => dispatch_table (received n r)) reads)).
Proof.
  intros Hall.
  assert (Hloop : forall T (G : Handlers T) t,
    Read G n reads t
    = Done (Listening
              (fold_left
                 (fun s r => outcome_of G (dispatch_table (received n r)) s)
                 reads t))).
  { intros T G. induction Hall as [| r reads [Hb Hf] _ IH]; intros t.
    - reflexivity.
    - cbn [Read fold_left]. rewrite Read_iteration_eq.
      rewrite (Read_dispatch_table G _ t Hb Hf). apply IH. }
  split; [apply Hloop |].
  rewrite Hloop, fold_recorder. reflexivity.
Qed.

Lemma Read_one_outcome_in_order_witness :
  Read recorder 64
    [MkRead [0x13; 0x0A; 0x00; 0x01] None;
     MkRead [0x08] None;
     MkRead [0x03; 0x34; 0x12] None] []
  = Done (Listening [EvState 10 1; EvAddKeyStatus 0x1234]).
Proof.
  refine (proj2 (Read_one_outcome_in_order recorder 64
            [MkRead [0x13; 0x0A; 0x00; 0x01] None;
             MkRead [0x08] None;
             MkRead [0x03; 0x34; 0x12] None] [] _)).
  repeat constructor; cbv; intuition discriminate.
Defined.

(** ** Encoding, then decoding *)

(** No frame of a command is decoded: the op codes the command methods
    write and the op codes the dispatcher routes are disjoint. *)
Lemma command_frame_not_decoded {S} (H : Handlers S) (c : command)
    (pad : list Z) (s : S) :
  Read_dispatch H (wire_frame c ++ pad) s = Done s.
Proof. destruct c; reflexivity. Qed.

(** C1, as stated, fails on the frame of a command: the six bytes
    [SendMessage(0x00, 0x000A, 0x0000)] writes are decoded to no op code
    and no fields at all, for the dispatcher knows no outbound op code. *)
Lemma SendMessage_frame_not_decoded :
  frames_sent (CSendMessage 0x00 0x000A 0x0000)
  = [[0x09; 0x00; 0x0A; 0x00; 0x00; 0x00]]
  /\ Read_iteration recorder 64
       (MkRead [0x09; 0x00; 0x0A; 0x00; 0x00; 0x00] None) []
     = Done [].
Proof. split; reflexivity. Qed.

Lemma Read_dispatch_le16 {S} (H : Handlers S) (op v : Z) (tail : list Z)
    (k : Z -> outcome S) :
  is_uint16 v ->
  (sl ← slice (op :: le16 v ++ tail) 1 3;
   x ← LittleEndian.Uint16 sl;
   k x)
  = k v.
Proof.
  intros Hv.
  change (slice (op :: le16 v ++ tail) 1 3) with (Done (le16 v)).
  cbn [mbind outcome_bind]. rewrite (Uint16_le16 v Hv). reflexivity.
Qed.

(** C1, as the code has it: a 16-bit value written by [toByteSlice] and
    read by [LittleEndian.Uint16] comes back unchanged, and for each of the
    six op codes the dispatcher decodes, a buffer that starts with the frame
    of an event (its op code, then its fields as the table lays them out,
    16-bit fields low byte first) is decoded to that event with the same
    fields, whatever bytes follow the frame. *)
Theorem decode_event_frame {S} (H : Handlers S) (e : event) (v : Z)
    (pad : list Z) (s : S) :
  valid_event e ->
  is_uint16 v ->
  (b ← toByteSlice v; LittleEndian.Uint16 b) = Done v
  /\ Read_dispatch H (event_frame e ++ pad) s = Done (deliver H e s).
Proof.
  intros He Hv. split; [apply Uint16_toByteSlice, Hv |].
  unfold event_frame.
  rewrite <- app_comm_cons.
  destruct e as [| i | u | a | a st | a];
    cbn [event_opcode event_fields deliver valid_event] in *.
  - reflexivity.
  - unfold Read_dispatch.
    enter_dispatch.
    rewrite (Read_dispatch_le16 H 3 i pad _ He). reflexivity.
  - destruct He as [Hlen _]. split_front u 16.
    destruct u; [reflexivity | discriminate].
  - unfold Read_dispatch.
    enter_dispatch.
    rewrite (Read_dispatch_le16 H 6 a pad _ He). reflexivity.
  - destruct He as [Ha _]. unfold Read_dispatch.
    enter_dispatch.
    rewrite <- app_assoc.
    rewrite (Read_dispatch_le16 H 19 a ([st] ++ pad) _ Ha). reflexivity.
  - unfold Read_dispatch.
    enter_dispatch.
    rewrite (Read_dispatch_le16 H 32 a pad _ He). reflexivity.
Qed.

Lemma decode_event_frame_witness :
  Read_dispatch recorder
    ([0x13; 0x34; 0x12; 0x07] ++ replicate 60 0) []
  = Done [EvState 0x1234 0x07].
Proof.
  refine (proj2 (decode_event_frame recorder (EvState 0x1234 0x07) 0xBEEF
                   (replicate 60 0) [] _ _));
    cbv [valid_event is_uint16 is_byte]; lia.
Defined.

(** ** Read failures *)

Lemma Read_never_returns {S} (H : Handlers S) (n : nat)
    (reads : list read_result) (s : S) (err : error) (s' : S) :
  Read H n reads s <> Done (Returned err s').
Proof.
  revert s. induction reads as [| r reads IH]; intros s; cbn [Read].
  - discriminate.
  - destruct (Read_iteration H n r s) as [s1 | p]; cbn; [apply IH | discriminate].
Qed.

(** The error of a read has no part in what the loop does. *)
Lemma Read_error_blind {S} (H : Handlers S) (n : nat)
    (reads : list read_result) (s : S) :
  Read H n reads s = Read H n (map without_error reads) s.
Proof.
  revert s. induction reads as [| r reads IH]; intros s; cbn [Read map].
  - reflexivity.
  - change (Read_iteration H n (without_error r) s)
      with (Read_iteration H n r s).
    destruct (Read_iteration H n r s) as [s1 | p]; cbn; [apply IH | reflexivity].
Qed.

(** C8, on the code: the loop goes on after a read that failed because the
    device is gone and dispatches the next packet, and a packet whose read
    overflowed is dispatched like any other instead of being dropped. *)
Theorem Read_goes_on_after_read_error :
  Read recorder 64
    [MkRead [] (Some ErrorNoDevice); MkRead [0x20; 0x0A; 0x00] None] []
  = Done (Listening [EvEvent 10])
  /\ Read recorder 64 [MkRead [0x20; 0x0A; 0x00] (Some ErrorOverflow)] []
     = Done (Listening [EvEvent 10]).
Proof. split; reflexivity. Qed.

(** ** More on the 16-bit field codec *)

(** X1: two bytes read as a 16-bit value and written again by
    [toByteSlice] are the same two bytes. *)
Theorem Uint16_then_toByteSlice (lo hi : Z) :
  is_byte lo -> is_byte hi ->
  (v ← LittleEndian.Uint16 [lo; hi]; toByteSlice v) = Done [lo; hi].
Proof.
  intros Hlo Hhi. rewrite Uint16_bytes by assumption.
  cbn [mbind outcome_bind]. rewrite toByteSlice_eq.
  unfold is_byte, byte in *. rewrite (Z.mul_comm (2 ^ 8) hi).
  rewrite Z.shiftr_div_pow2 by lia.
  rewrite Z.mod_add, Z.div_add by lia.
  rewrite (Z.div_small lo), !Z.mod_small by lia. reflexivity.
Qed.

Lemma Uint16_then_toByteSlice_witness :
  (v ← LittleEndian.Uint16 [0xCD; 0xAB]; toByteSlice v) = Done [0xCD; 0xAB].
Proof.
  apply (Uint16_then_toByteSlice 0xCD 0xAB); unfold is_byte; lia.
Defined.

Lemma le16_inj (v w : Z) :
  is_uint16 v -> is_uint16 w -> le16 v = le16 w -> v = w.
Proof.
  intros Hv Hw Heq.
  assert (Hd : Done v = Done w)
    by (rewrite <- (Uint16_le16 v Hv), <- (Uint16_le16 w Hw), Heq; reflexivity).
  injection Hd as ->. reflexivity.
Qed.

(** X2: [toByteSlice] loses nothing: two different 16-bit values never
    have the same two bytes. *)
Theorem toByteSlice_injective (v w : Z) :
  is_uint16 v -> is_uint16 w -> v <> w -> toByteSlice v <> toByteSlice w.
Proof.
  intros Hv Hw Hne. rewrite !toByteSlice_le16. intros Heq.
  apply Hne, le16_inj; [assumption .. | congruence].
Qed.

Lemma toByteSlice_injective_witness :
  toByteSlice 0x000A <> toByteSlice 0x0A00.
Proof.
  apply (toByteSlice_injective 0x000A 0x0A00); unfold is_uint16; lia.
Defined.

(** ** More on the command issuer *)

Lemma le16_app_inj (v w : Z) (l l' : list Z) :
  is_uint16 v -> is_uint16 w ->
  le16 v ++ l = le16 w ++ l' -> v = w /\ l = l'.
Proof.
  intros Hv Hw Heq.
  assert (Hl : length (le16 v) = length (le16 w)) by reflexivity.
  destruct (app_inj_1 _ _ _ _ Hl Heq) as [H1 H2].
  split; [apply le16_inj; assumption | exact H2].
Qed.

Lemma cons_eq_inv (x y : Z) (l l' : list Z) :
  x :: l = y :: l' -> x = y /\ l = l'.
Proof. intros Heq. injection Heq as -> ->. auto. Qed.

Lemma wire_frame_inj (c1 c2 : command) :
  valid_command c1 -> valid_command c2 ->
  wire_frame c1 = wire_frame c2 -> c1 = c2.
Proof.
  unfold wire_frame.
  destruct c1, c2; cbn [command_opcode command_fields valid_command app];
    intros V1 V2 Heq; try discriminate Heq; try reflexivity;
    repeat match goal with
           | V : _ /\ _ |- _ => destruct V
           end;
    repeat match goal with
           | E : _ :: _ = _ :: _ |- _ =>
               apply cons_eq_inv in E; destruct E as [? E]
           | E : le16 ?a ++ _ = le16 ?b ++ _ |- _ =>
               apply le16_app_inj in E; [destruct E as [? E] | assumption ..]
           | E : le16 ?a = le16 ?b |- _ =>
               apply le16_inj in E; [| assumption ..]
           end;
    congruence.
Qed.

Lemma issue_frame_logged (c : command) (w : World) :
  exists err w' rest,
    issue c w = Done (err, w')
    /\ io_log w' = io_log w ++ IOWrite (wire_frame c) :: rest
    /\ Forall (fun e => e = IOWrite (wire_frame c) \/ exists d, e = IOSleep d) rest.
Proof.
  rewrite issue_wire_frame, WriteData_run.
  destruct (out_script w (out_calls w)) as [e1 |];
    [destruct (out_script w (Datatypes.S (out_calls w))) as [e2 |] |];
    eexists _, _, _; (split; [reflexivity |]); (split; [reflexivity |]);
    repeat match goal with |- Forall _ _ => constructor end; eauto.
Qed.

(** X3: the frame tells the command: two valid commands that differ, in
    the method or in an argument, never do the same to the endpoint. *)
Theorem issue_injective (c1 c2 : command) (w : World) :
  valid_command c1 -> valid_command c2 ->
  c1 <> c2 -> issue c1 w <> issue c2 w.
Proof.
  intros V1 V2 Hne Heq. apply Hne, wire_frame_inj; try assumption.
  destruct (issue_frame_logged c1 w) as (e1 & w1 & r1 & R1 & L1 & _).
  destruct (issue_frame_logged c2 w) as (e2 & w2 & r2 & R2 & L2 & _).
  rewrite R1, R2 in Heq. injection Heq as _ Hw. subst w2.
  rewrite L1 in L2. apply app_inv_head in L2. congruence.
Qed.

Lemma issue_injective_witness :
  issue (CConfigureNode 0x0001 0x0002) quiet
  <> issue (CConfigureNode 0x0002 0x0001) quiet.
Proof.
  apply (issue_injective (CConfigureNode 0x0001 0x0002)
           (CConfigureNode 0x0002 0x0001) quiet);
    [cbv [valid_command is_uint16]; lia
    | cbv [valid_command is_uint16]; lia
    | discriminate].
Defined.

Lemma mapM_cons_M (c : command) (cs : list command) (w : World) :
  issue_all (c :: cs) w
  = match issue c w with
    | Done (e, w1) =>
        match issue_all cs w1 with
        | Done (es, w2) => Done (e :: es, w2)
        | Panic p => Panic p
        end
    | Panic p => Panic p
    end.
Proof.
  unfold issue_all. cbn [mapM]. unfold mbind at 1. unfold M_bind.
  destruct (issue c w) as [[e w1] | p]; [| reflexivity].
  unfold mbind, M_bind.
  destruct (mapM issue cs w1) as [[es w2] | p]; reflexivity.
Qed.

(** X4: on an endpoint that accepts every write, commands issued one after
    the other all succeed and put on the wire exactly their frames, one
    write each, in the order of the calls. *)
Theorem issue_all_healthy (cs : list command) (w : World) :
  healthy w ->
  exists w',
    issue_all cs w = Done (replicate (length cs) None, w')
    /\ io_log w' = io_log w ++ map (fun c => IOWrite (wire_frame c)) cs
    /\ out_calls w' = (length cs + out_calls w)%nat
    /\ out_script w' = out_script w.
Proof.
  revert w. induction cs as [| c cs IH]; intros w Hw.
  - exists w. cbn. rewrite app_nil_r. auto.
  - rewrite mapM_cons_M, issue_wire_frame, WriteData_run, (Hw (out_calls w)).
    destruct (IH (after w 1 [IOWrite (wire_frame c)])) as (w' & R & L & C & Sc).
    { intros k. apply Hw. }
    rewrite R. exists w'. cbn [after io_log out_calls out_script] in *.
    split; [reflexivity |]. rewrite L, C, Sc, <- app_assoc.
    repeat split. cbn [length]. lia.
Qed.

Lemma issue_all_healthy_witness :
  exists w',
    issue_all [CReset; CReboot; CSetup; CAddKey 0] quiet
    = Done ([None; None; None; None], w')
    /\ io_log w' = [IOWrite [0x10]; IOWrite [0x11]; IOWrite [0x00];
                    IOWrite [0x02; 0x00; 0x00]].
Proof.
  destruct (issue_all_healthy [CReset; CReboot; CSetup; CAddKey 0] quiet)
    as (w' & R & L & _); [intros k; reflexivity |].
  exists w'. split; [exact R | exact L].
Defined.

(** X5: whatever a command writes, the dispatcher does not take for an
    event: fed back to [Read], followed by any bytes, each frame written by
    a command method calls no handler. *)
Theorem issue_not_dispatched {S} (H : Handlers S) (c : command) (w : World)
    (pad : list Z) (s : S) :
  exists err w' t,
    issue c w = Done (err, w')
    /\ io_log w' = io_log w ++ t
    /\ forall d, In d (written t) -> Read_dispatch H (d ++ pad) s = Done s.
Proof.
  rewrite issue_wire_frame, WriteData_run.
  destruct (out_script w (out_calls w)) as [e1 |];
    [destruct (out_script w (Datatypes.S (out_calls w))) as [e2 |] |];
    eexists _, _, _; (split; [reflexivity |]); (split; [reflexivity |]);
    cbn; intros d Hd; intuition subst; apply command_frame_not_decoded.
Qed.

(** ** How much of the buffer an iteration needs *)

Lemma Read_dispatch_enough {S} (H : Handlers S) (op : Z) (rest : list Z) (s : S) :
  (bytes_read op <= length (op :: rest))%nat ->
  returns (Read_dispatch H (op :: rest) s).
Proof.
  unfold returns. dispatch_by_opcode op; intros Hlen.
  - eexists; reflexivity.
  - split_front rest 2. eexists; reflexivity.
  - split_front rest 16. eexists; reflexivity.
  - split_front rest 2. eexists; reflexivity.
  - split_front rest 3. eexists; reflexivity.
  - split_front rest 2. eexists; reflexivity.
  - eexists; reflexivity.
Qed.

Lemma Read_dispatch_short {S} (H : Handlers S) (op : Z) (rest : list Z) (s : S) :
  (length (op :: rest) < bytes_read op)%nat ->
  exists p, Read_dispatch H (op :: rest) s = Panic p.
Proof.
  dispatch_by_opcode op; intros Hlen;
    try (cbn in Hlen; lia);
    do 17 (destruct rest as [| ? rest];
           [eexists; reflexivity | try (cbn in Hlen; lia)]).
Qed.

(** X6: an iteration runs to its end exactly when the buffer is not empty
    and has the bytes the branch of its first byte reads: three for
    AddKeyStatus, NodeAdded and Event, four for State, seventeen for
    UnprovisionedBeacon, one for anything else. On any shorter buffer it
    panics. *)
Theorem Read_dispatch_returns_iff {S} (H : Handlers S) (buf : list Z) (s : S) :
  returns (Read_dispatch H buf s)
  <-> exists op, buf !! 0%nat = Some op /\ (bytes_read op <= length buf)%nat.
Proof.
  destruct buf as [| op rest].
  - split; [intros [a Ha]; discriminate Ha | intros (op & Hop & _); discriminate Hop].
  - split.
    + intros [a Ha]. exists op. split; [reflexivity |].
      destruct (le_lt_dec (bytes_read op) (length (op :: rest))) as [Hle | Hlt];
        [exact Hle |].
      destruct (Read_dispatch_short H op rest s Hlt) as [p Hp]. congruence.
    + intros (op' & Hop & Hlen). injection Hop as <-.
      apply Read_dispatch_enough, Hlen.
Qed.

(** X7: seventeen bytes is the least safe size of the receive buffer: the
    loop body runs to its end on every packet exactly when
    [MaxPacketSize] is at least 17. *)
Theorem Read_least_safe_packet_size {S} (H : Handlers S) (n : nat) (s : S) :
  (forall r, returns (Read_iteration H n r s)) <-> (17 <= n)%nat.
Proof.
  split.
  - intros Hall. destruct (le_lt_dec 17 n) as [Hle | Hlt]; [exact Hle | exfalso].
    destruct (Hall (MkRead [OpUnprovisionedBeacon] None)) as [a Ha].
    rewrite Read_iteration_eq in Ha.
    destruct n as [| m]; [discriminate Ha |].
    change (received (Datatypes.S m) (MkRead [OpUnprovisionedBeacon] None))
      with (4 :: replicate m 0) in Ha.
    destruct (Read_dispatch_short H 4 (replicate m 0) s) as [p Hp].
    { cbn [length]. rewrite length_replicate. change (bytes_read 4) with 17%nat. lia. }
    congruence.
  - intros Hn r. rewrite Read_iteration_eq.
    apply Read_dispatch_total. rewrite length_received. exact Hn.
Qed.

(** X8: bytes after those an iteration reads play no part: a buffer and
    its first [bytes_read] bytes followed by anything else are dispatched
    alike. *)
Theorem Read_dispatch_trailing_bytes {S} (H : Handlers S) (op : Z)
    (rest pad : list Z) (s : S) :
  (bytes_read op <= length (op :: rest))%nat ->
  Read_dispatch H (take (bytes_read op) (op :: rest) ++ pad) s
  = Read_dispatch H (op :: rest) s.
Proof.
  dispatch_by_opcode op; intros Hlen.
  - reflexivity.
  - split_front rest 2. reflexivity.
  - split_front rest 16. reflexivity.
  - split_front rest 2. reflexivity.
  - split_front rest 3. reflexivity.
  - split_front rest 2. reflexivity.
  - change (take 1 (op :: rest) ++ pad) with (op :: pad).
    cbn [index lookup list_lookup mbind outcome_bind].
    repeat match goal with
           | |- context [op =? ?c] =>
               destruct (Z.eqb_spec op c); [congruence |]
           end.
    reflexivity.
Qed.

Lemma Read_dispatch_trailing_bytes_witness :
  Read_dispatch recorder ([0x13; 0x0A; 0x00; 0x01] ++ [0xFF; 0xFF]) []
  = Read_dispatch recorder [0x13; 0x0A; 0x00; 0x01; 0x07] [].
Proof.
  apply (Read_dispatch_trailing_bytes recorder 0x13 [0x0A; 0x00; 0x01; 0x07]
           [0xFF; 0xFF] []).
  cbn. lia.
Defined.

(** X9: a read that brings no bytes, as a failed read does, leaves the
    fresh buffer all zero, and so calls no handler: byte [0x00] is the op
    code of Setup, which the dispatcher does not route. *)
Theorem Read_empty_read {S} (H : Handlers S) (n : nat)
    (err : option usb_error) (s : S) :
  (1 <= n)%nat ->
  Read_iteration H n (MkRead [] err) s = Done s.
Proof.
  intros Hn. rewrite Read_iteration_eq.
  destruct n as [| m]; [lia |].
  change (received (Datatypes.S m) (MkRead [] err)) with (0 :: replicate m 0).
  apply Read_dispatch_unrouted. reflexivity.
Qed.

Lemma Read_empty_read_witness :
  Read_iteration recorder 64 (MkRead [] (Some ErrorTimeout)) [EvSetupStatus]
  = Done [EvSetupStatus].
Proof.
  apply (Read_empty_read recorder 64 (Some ErrorTimeout) [EvSetupStatus]). lia.
Defined.

(** ** Opening and closing *)

Lemma Open_run (g : Gousb) (t : list usb_call) :
  Open g t
  = match snd (opened_device g) with
    | Some _ =>
        (Controller_zero, Some "Unable to open controller"%string,
         t ++ take 2 (opened_calls g))
    | None =>
    match opened_autodetach g with
    | Some _ =>
        (Controller_zero, Some "Unable to open controller"%string,
         t ++ take 3 (opened_calls g))
    | None =>
    match snd (opened_config g) with
    | Some _ =>
        (Controller_zero, Some "Unable to get config"%string,
         t ++ take 4 (opened_calls g))
    | None =>
    match snd (opened_interface g) with
    | Some _ =>
        (Controller_zero, Some "Unable to open interface"%string,
         t ++ take 5 (opened_calls g))
    | None =>
    match snd (opened_out g) with
    | Some _ =>
        (Controller_zero, Some "Unable to open endpoints"%string,
         t ++ opened_calls g)
    | None => (opened_controller g, None, t ++ opened_calls g)
    end end end end end.
Proof.
  unfold Open, opened_controller, opened_calls, opened_out, opened_in,
    opened_interface, opened_config, opened_autodetach, opened_device,
    called, mbind, U_bind, mret, U_ret.
  cbn [take].
  destruct (OpenDeviceWithVIDPID g (NewContext g) 0x2fe3 0x0100) as [dev [e1 |]];
    cbn [fst snd]; rewrite <- ?app_assoc; [reflexivity |].
  destruct (SetAutoDetach g dev true) as [e2 |];
    rewrite <- ?app_assoc; [reflexivity |].
  destruct (Config g dev 1) as [cfg [e3 |]];
    cbn [fst snd]; rewrite <- ?app_assoc; [reflexivity |].
  destruct (Interface g cfg 1 0) as [i [e4 |]];
    cbn [fst snd]; rewrite <- ?app_assoc; [reflexivity |].
  destruct (InEndpoint g i 2) as [ei e5].
  destruct (OutEndpoint g i 1) as [eo [e6 |]];
    cbn [fst snd]; rewrite <- ?app_assoc; reflexivity.
Qed.




(** X12: when [Open] fails it hands back the empty controller and one of
    four messages, and it has closed nothing: the context, and whatever
    else it had acquired before the failing call, stay open with no handle
    left to close them by. *)
Theorem Open_failure_releases_nothing (g : Gousb) (t : list usb_call)
    (c : Controller) (msg : string) :
  fst (Open g t) = (c, Some msg) ->
  c = Controller_zero
  /\ In msg ["Unable to open controller"; "Unable to get config";
             "Unable to open interface"; "Unable to open endpoints"]%string
  /\ exists calls,
       snd (Open g t) = t ++ CallNewContext :: calls
       /\ Forall (fun k => is_close k = false) calls.
Proof.
  rewrite Open_run. unfold opened_calls.
  destruct (snd (opened_device g)), (opened_autodetach g),
    (snd (opened_config g)), (snd (opened_interface g)),
    (snd (opened_out g)); cbn [fst snd take];
    intros Heq; try discriminate Heq; injection Heq as <- <-;
    (split; [reflexivity |]); (split; [cbn; tauto |]);
    eexists; (split; [reflexivity |]); repeat constructor.
Qed.

Lemma Open_failure_releases_nothing_witness :
  Controller_zero = Controller_zero
  /\ In "Unable to get config"%string
       ["Unable to open controller"; "Unable to get config";
        "Unable to open interface"; "Unable to open endpoints"]%string
  /\ exists calls,
       snd (Open no_config []) = [] ++ CallNewContext :: calls
       /\ Forall (fun k => is_close k = false) calls.
Proof.
  exact (Open_failure_releases_nothing no_config [] Controller_zero
           "Unable to get config"%string eq_refl).
Defined.



(** ** The earlier revision against the later one *)

Lemma Legacy_WriteData_run (data : list Z) (w : World) :
  Legacy.WriteData data w = Done (tt, after w 1 [IOWrite data]).
Proof. reflexivity. Qed.

(** X14: each method of the earlier revision, given the bytes of the later
    method's arguments low byte first, writes the frame the later method
    writes, in one attempt whatever comes of it, and reports nothing; when
    that write succeeds the two revisions leave the endpoint in the same
    state. *)
Theorem Legacy_same_frame (c : command) (m : M unit) (w : World) :
  Legacy.issue c = Some m ->
  m w = Done (tt, after w 1 [IOWrite (wire_frame c)])
  /\ (out_script w (out_calls w) = None ->
      issue c w = Done (None, after w 1 [IOWrite (wire_frame c)])).
Proof.
  intros Hm. split.
  - destruct c; cbn [Legacy.issue] in Hm; try discriminate Hm;
      injection Hm as <-; reflexivity.
  - intros Hok. rewrite issue_wire_frame, WriteData_run, Hok. reflexivity.
Qed.

Lemma Legacy_same_frame_witness :
  Legacy.SendMessage 0x01 [0x0A; 0x00] [0x00; 0x00] quiet
  = Done (tt, after quiet 1 [IOWrite [0x09; 0x01; 0x0A; 0x00; 0x00; 0x00]]).
Proof.
  exact (proj1 (Legacy_same_frame (CSendMessage 0x01 0x000A 0x0000)
                  (Legacy.SendMessage 0x01 [0x0A; 0x00] [0x00; 0x00])
                  quiet eq_refl)).
Defined.

(** X15: apart from the Event op code, which it added, the later [Read]
    does on every buffer what the earlier [Read] does when its handlers
    decode the 16-bit fields themselves: same calls, same arguments, same
    panics. *)
Theorem Read_refines_Legacy {S} (H : Handlers S) (buf : list Z) (s : S) :
  buf !! 0%nat <> Some OpEvent ->
  Legacy.Read_dispatch (decoding H) buf s = Read_dispatch H buf s.
Proof.
  intros Hev. destruct buf as [| op rest]; [reflexivity |].
  legacy_by_opcode op;
    try (exfalso; apply Hev; reflexivity);
    try reflexivity;
    do 4 (destruct rest as [| ? rest]; [reflexivity |]);
    reflexivity.
Qed.

Lemma Read_refines_Legacy_witness :
  Legacy.Read_dispatch (decoding recorder) [0x13; 0x0A; 0x00; 0x01] []
  = Done [EvState 10 1].
Proof.
  refine (Read_refines_Legacy recorder [0x13; 0x0A; 0x00; 0x01] [] _).
  discriminate.
Defined.

(** ** The demo program *)

(** X16: on any buffer of at least seventeen bytes the demo program
    answers a SetupStatus frame with AddKey for index 0 and a NodeAdded
    frame with ConfigureNode for the two address bytes as they came and
    key 0; it writes nothing on any other frame, and every answer is one
    write attempt. *)
Theorem Demo_answers (buf : list Z) (p : Demo.Proc) :
  (17 <= length buf)%nat ->
  exists p',
    Demo.Read_dispatch buf p = Done p'
    /\ io_log (Demo.usb p')
       = io_log (Demo.usb p) ++ map IOWrite (Demo.answer buf)
    /\ out_calls (Demo.usb p')
       = (length (Demo.answer buf) + out_calls (Demo.usb p))%nat.
Proof.
  intros Hlen. split_front buf 17. rename z into op. clear Hlen.
  unfold Demo.Read_dispatch, Demo.answer.
  cbn [index lookup list_lookup mbind outcome_bind].
  unfold_ops.
  case_op op 1; [| case_op op 3; [| case_op op 4; [| case_op op 6]]];
    cbn [Z.eqb Pos.eqb mbind outcome_bind];
    eexists; (split; [reflexivity |]); cbn; rewrite ?app_nil_r; auto.
Qed.

Lemma Demo_answers_witness :
  exists p',
    Demo.Read_dispatch ([0x06; 0x34; 0x12] ++ replicate 61 0)
      (Demo.MkProc quiet []) = Done p'
    /\ io_log (Demo.usb p') = [IOWrite [0x07; 0x34; 0x12; 0x00; 0x00]].
Proof.
  destruct (Demo_answers ([0x06; 0x34; 0x12] ++ replicate 61 0)
              (Demo.MkProc quiet [])) as (p' & R & L & _); [cbn; lia |].
  exists p'. split; [exact R | exact L].
Defined.

(** ** The loop, on any packets *)

Lemma Read_app {S} (H : Handlers S) (n : nat)
    (reads1 reads2 : list read_result) (s : S) :
  Read H n (reads1 ++ reads2) s
  = match Read H n reads1 s with
    | Done (Listening s1) => Read H n reads2 s1
    | other => other
    end.
Proof.
  revert s. induction reads1 as [| r reads1 IH]; intros s; cbn [Read app].
  - reflexivity.
  - destruct (Read_iteration H n r s) as [s1 | p]; cbn [mbind outcome_bind].
    + apply IH.
    + reflexivity.
Qed.

Lemma recorder_at_most_one (buf : list Z) (t : list event) :
  (17 <= length buf)%nat ->
  exists l, Read_dispatch recorder buf t = Done (t ++ l) /\ (length l <= 1)%nat.
Proof.
  intros Hlen. split_front buf 17. rename z into op. clear Hlen.
  unfold Read_dispatch.
  cbn [index lookup list_lookup mbind outcome_bind].
  unfold_ops.
  case_op op 1; [| case_op op 3; [| case_op op 4; [| case_op op 6;
    [| case_op op 19; [| case_op op 32]]]]];
    cbn [Z.eqb Pos.eqb mbind outcome_bind];
    try (eexists [_]; split; [reflexivity | cbn; lia]).
  exists []. rewrite app_nil_r. split; [reflexivity | cbn; lia].
Qed.

(** X17: with a receive buffer of at least seventeen bytes, whatever the
    packets hold, the loop calls at most one handler for each packet and
    keeps what was called before: after [k] packets at most [k] more calls
    have been made. *)
Theorem Read_at_most_one_call_per_packet (n : nat)
    (reads : list read_result) (t : list event) :
  (17 <= n)%nat ->
  exists l,
    Read recorder n reads t = Done (Listening (t ++ l))
    /\ (length l <= length reads)%nat.
Proof.
  intros Hn. revert t. induction reads as [| r reads IH]; intros t.
  - exists []. rewrite app_nil_r. split; [reflexivity | cbn; lia].
  - cbn [Read]. rewrite Read_iteration_eq.
    destruct (recorder_at_most_one (received n r) t) as (l1 & R1 & L1).
    { rewrite length_received. exact Hn. }
    rewrite R1. cbn [mbind outcome_bind].
    destruct (IH (t ++ l1)) as (l2 & R2 & L2).
    exists (l1 ++ l2). rewrite app_assoc. split; [exact R2 |].
    rewrite length_app. cbn [length]. lia.
Qed.

Lemma Read_at_most_one_call_per_packet_witness :
  exists l,
    Read recorder 17 [MkRead [0x06; 0x01; 0x00] None; MkRead [0x07] None] []
    = Done (Listening ([] ++ l))
    /\ (length l <= 2)%nat.
Proof.
  apply (Read_at_most_one_call_per_packet 17
           [MkRead [0x06; 0x01; 0x00] None; MkRead [0x07] None] []).
  lia.
Defined.

(** X18: a packet on which the body of the loop panics ends the loop for
    good: the packets before it have been dispatched, nothing that comes
    after it is. *)
Theorem Read_panic_is_final {S} (H : Handlers S) (n : nat)
    (before later : list read_result) (r : read_result)
    (s s1 : S) (p : panic) :
  Read H n before s = Done (Listening s1) ->
  Read_iteration H n r s1 = Panic p ->
  Read H n (before ++ r :: later) s = Panic p.
Proof.
  intros Hb Hr. rewrite Read_app, Hb. cbn [Read]. rewrite Hr. reflexivity.
Qed.

Lemma Read_panic_is_final_witness :
  Read recorder 16
    ([MkRead [0x20; 0x0A; 0x00] None]
     ++ MkRead [0x04] None :: [MkRead [0x20; 0x0B; 0x00] None]) []
  = Panic (SliceBoundsOutOfRange 17 16).
Proof.
  exact (Read_panic_is_final recorder 16 [MkRead [0x20; 0x0A; 0x00] None]
           [MkRead [0x20; 0x0B; 0x00] None] (MkRead [0x04] None)
           [] [EvEvent 10] (SliceBoundsOutOfRange 17 16) eq_refl eq_refl).
Defined.
